(** * flux embeddings-svc: the request handlers of [embeddings-svc/main.py]

    A shallow embedding of the FastAPI service of [main.py] (module
    initialisation, [health], [embed]) and the proofs of its contract:
    input validation, the calls made to the sentence-transformers model,
    and the discipline of [model_lock]. *)

From Stdlib Require Import PrimFloat.
From stdpp Require Import base tactics option list strings gmap.

Local Open Scope Z_scope.

(** ** Python [str]: sequences of Unicode code points *)

Module PyStr.

(** A Python [str] is a sequence of code points. *)
Definition str := list N.

(** The code points of an ASCII literal. *)
Fixpoint of_string (s : string) : str :=
  match s with
  | EmptyString => []
  | String a s' => Ascii.N_of_ascii a :: of_string s'
  end.

(** [str.isspace] on one code point, as CPython's [_PyUnicode_IsWhitespace]
    decides it: the characters [str.strip()] removes when called without
    argument. *)
Definition isspace (c : N) : bool :=
  ((0x09 <=? c) && (c <=? 0x0D))%N
  || ((0x1C <=? c) && (c <=? 0x20))%N
  || (c =? 0x85)%N || (c =? 0xA0)%N || (c =? 0x1680)%N
  || ((0x2000 <=? c) && (c <=? 0x200A))%N
  || (c =? 0x2028)%N || (c =? 0x2029)%N || (c =? 0x202F)%N
  || (c =? 0x205F)%N || (c =? 0x3000)%N.

(** [s.lstrip()]: skip the leading whitespace. *)
Fixpoint lstrip (s : str) : str :=
  match s with
  | [] => []
  | c :: s' => if isspace c then lstrip s' else s
  end.

(** [s.rstrip()]: drop the trailing whitespace. *)
Fixpoint rstrip (s : str) : str :=
  match s with
  | [] => []
  | c :: s' =>
      match rstrip s' with
      | [] => if isspace c then [] else [c]
      | r => c :: r
      end
  end.

(** [s.strip()]: CPython's [do_strip] advances past the leading whitespace
    and then retreats over the trailing whitespace of what is left. *)
Definition strip (s : str) : str := rstrip (lstrip s).

(** Truth value of a sequence: the empty one is falsy. *)
Definition nonempty {A} (l : list A) : bool :=
  match l with [] => false | _ :: _ => true end.

(** Truth value of a [str]: the empty string is falsy. *)
Definition truthy (s : str) : bool :=
  match s with [] => false | _ :: _ => true end.

(** A string whose first code point, if any, is not whitespace. *)
Definition starts_clean (s : str) : Prop :=
  match s with [] => True | c :: _ => isspace c = false end.

(** An entry that validation refuses: nothing is left of it once stripped. *)
Definition blank (s : str) : Prop := strip s = [].

End PyStr.

Import PyStr.

(** ** Data model *)

(** [class EmbedRequest(BaseModel)]: [texts: List[str]]. *)
Record EmbedRequest := { texts : list str }.

(** [class EmbedResponse(BaseModel)]: [embeddings: List[List[float]]]. *)
Record EmbedResponse := { embeddings : list (list float) }.

(** The request built from a JSON body: [Field(default_factory=list)] fills
    an absent [texts] field with a fresh empty list. *)
Definition parse_body (texts_field : option (list str)) : EmbedRequest :=
  {| texts := default [] texts_field |}.

(** The two-dimensional array [encode] returns under [convert_to_numpy=True],
    one row per sentence; [tolist] turns it into nested lists. *)
Record ndarray := { rows : list (list float) }.

Definition tolist (a : ndarray) : list (list float) := rows a.

(** The keyword arguments of one call of [model.encode]. *)
Record EncodeCall := {
  sentences : list str;
  batch_size : Z;
  show_progress_bar : bool;
  normalize_embeddings : bool;
  convert_to_numpy : bool
}.

(** Exceptions: FastAPI's [HTTPException], or whatever the model library
    raises (kept as its message). *)
Inductive exception :=
| HTTPException (status_code : Z) (detail : string)
| LibraryError (message : string).

(** How an operation ends: it returns, it raises, or it blocks for ever in
    [model_lock.acquire()] (a [threading.Lock] has no owner and no timeout). *)
Inductive result (A : Type) :=
| Returns (a : A)
| Raises (e : exception)
| Blocks.
Arguments Returns {A} a.
Arguments Raises {A} e.
Arguments Blocks {A}.

(** What the process does to the outside of the handler code. *)
Inductive event :=
| EvLoad (model_name_or_path device : string)
| EvAcquire
| EvRelease
| EvEncode (call : EncodeCall).

(** JSON values of the [health] payload. *)
Inductive json :=
| JStr (s : string)
| JInt (n : Z).

(** The status line FastAPI answers with: 200 for a returned value, the
    status of an [HTTPException], 500 for any other exception; no answer
    while the handler is blocked. *)
Definition status_of {A} (r : result A) : option Z :=
  match r with
  | Returns _ => Some 200
  | Raises (HTTPException code _) => Some code
  | Raises (LibraryError _) => Some 500
  | Blocks => None
  end.

(** ** A stub of the model library, to run the handlers on examples *)

(** The stub counts its [encode] calls in its state and encodes a sentence
    as one number per code point. *)
Definition stub_row (s : str) : list float :=
  map (λ c, if isspace c then 0%float else 1%float) s.

Definition stub_transformer (model_name_or_path device : string) : result nat :=
  Returns 0%nat.

Definition stub_encode (m : nat) (call : EncodeCall) : result ndarray * nat :=
  (Returns {| rows := map stub_row (sentences call) |}, S m).

(** A model whose [encode] raises on every call. *)
Definition failing_encode (m : nat) (call : EncodeCall) : result ndarray * nat :=
  (Raises (LibraryError "encode failed"), S m).

(** ** The service, over the sentence-transformers library *)

Section Service.

(** The library is outside the repository: the state of a loaded
    [SentenceTransformer] object, its constructor, and its [encode] method,
    which may change the object's buffers and returns, raises or hangs. *)
Context {Model : Type}.
Variable SentenceTransformer : string → string → result Model.
Variable encode : Model → EncodeCall → result ndarray * Model.

(** The module-level variables of [main.py]; [model_lock] holds whether the
    [threading.Lock] is locked. *)
Record Globals := {
  MODEL_PATH : string;
  MODEL_NAME : string;
  model : Model;
  model_lock : bool
}.

Definition set_model (m : Model) (g : Globals) : Globals :=
  {| MODEL_PATH := MODEL_PATH g; MODEL_NAME := MODEL_NAME g;
     model := m; model_lock := model_lock g |}.

Definition set_lock (b : bool) (g : Globals) : Globals :=
  {| MODEL_PATH := MODEL_PATH g; MODEL_NAME := MODEL_NAME g;
     model := model g; model_lock := b |}.

(** *** Handler code: state, exceptions and a trace of events *)

Definition M (A : Type) : Type := Globals → result A * Globals * list event.

Definition ret {A} (a : A) : M A := λ g, (Returns a, g, []).

Definition raise {A} (e : exception) : M A := λ g, (Raises e, g, []).

Definition bind {A B} (c : M A) (k : A → M B) : M B := λ g,
  match c g with
  | (Returns a, g1, t1) => let '(r, g2, t2) := k a g1 in (r, g2, t1 ++ t2)
  | (Raises e, g1, t1) => (Raises e, g1, t1)
  | (Blocks, g1, t1) => (Blocks, g1, t1)
  end.

Notation "'let*' x ':=' c 'in' k" := (bind c (λ x, k))
  (at level 10, x binder, c at level 100, k at level 200, only parsing).

(** [try: body finally: cleanup], for a body that comes back. *)
Definition finally {A} (body : M A) (cleanup : M unit) : M A := λ g,
  match body g with
  | (Blocks, g1, t1) => (Blocks, g1, t1)
  | (r, g1, t1) =>
      match cleanup g1 with
      | (Returns _, g2, t2) => (r, g2, t1 ++ t2)
      | (Raises e, g2, t2) => (Raises e, g2, t1 ++ t2)
      | (Blocks, g2, t2) => (Blocks, g2, t1 ++ t2)
      end
  end.

(** [model_lock.acquire()]: waits while the lock is locked. *)
Definition acquire : M unit := λ g,
  if model_lock g then (Blocks, g, [])
  else (Returns (), set_lock true g, [EvAcquire]).

(** [model_lock.release()]: a [RuntimeError] on an unlocked lock. *)
Definition release : M unit := λ g,
  if model_lock g then (Returns (), set_lock false g, [EvRelease])
  else (Raises (LibraryError "release unlocked lock"), g, []).

(** [with model_lock: body]. *)
Definition with_model_lock {A} (body : M A) : M A :=
  let* _ := acquire in finally body release.

(** [model.encode(sentences, batch_size=..., ...)]. *)
Definition model_encode (call : EncodeCall) : M ndarray := λ g,
  let '(r, m') := encode (model g) call in (r, set_model m' g, [EvEncode call]).

(** *** Module initialisation (lines 18-26) *)

(** [os.getenv(key, default)]. *)
Definition getenv (environ : gmap string string) (key dflt : string) : string :=
  default dflt (environ !! key).

Definition load (model_name_or_path device : string) : result Model * list event :=
  (SentenceTransformer model_name_or_path device, [EvLoad model_name_or_path device]).

(** [MODEL_PATH] and [MODEL_NAME] as lines 18 and 19 read them. *)
Definition env_model_path (environ : gmap string string) : string :=
  getenv environ "EMBEDDINGS_MODEL_PATH" "/models/all-MiniLM-L6-v2".

Definition env_model_name (environ : gmap string string) : string :=
  getenv environ "EMBEDDINGS_MODEL" "sentence-transformers/all-MiniLM-L6-v2".

(** The body of the module, run once at import; [isdir] is [os.path.isdir]
    on the file system of the process. *)
Definition module_init (environ : gmap string string) (isdir : string → bool)
  : result Globals * list event :=
  let path := env_model_path environ in
  let name := env_model_name environ in
  let '(loaded, t) :=
    if isdir path then load path "cpu" else load name "cpu" in
  match loaded with
  | Returns m =>
      (Returns {| MODEL_PATH := path; MODEL_NAME := name; model := m; model_lock := false |}, t)
  | Raises e => (Raises e, t)
  | Blocks => (Blocks, t)
  end.

(** *** The handlers *)

(** [GET /health]. *)
Definition health : M (list (string * json)) :=
  ret [("status", JStr "ok"); ("model", JStr "all-MiniLM-L6-v2"); ("dimensions", JInt 384)].

(** [clean_texts = [t.strip() for t in req.texts if t and t.strip()]]. *)
Definition clean (ts : list str) : list str :=
  map strip (List.filter (λ t, truthy t && truthy (strip t)) ts).

(** [POST /embed]. *)
Definition embed (req : EmbedRequest) : M EmbedResponse :=
  if negb (nonempty (texts req))
  then ret {| embeddings := [] |}
  else
    let clean_texts := clean (texts req) in
    if negb (length clean_texts =? length (texts req))%nat
    then raise (HTTPException 400 "texts must be non-empty strings")
    else
      let* vectors :=
        with_model_lock
          (model_encode {| sentences := clean_texts;
                           batch_size := 32;
                           show_progress_bar := false;
                           normalize_embeddings := false;
                           convert_to_numpy := true |}) in
      ret {| embeddings := tolist vectors |}.

(** *** The server: initialisation, then the requests one after another *)

Inductive request :=
| GetHealth
| PostEmbed (texts_field : option (list str)).

Inductive response :=
| HealthResponse (r : result (list (string * json)))
| EmbedResponded (r : result EmbedResponse).

Definition handle (rq : request) (g : Globals) : response * Globals * list event :=
  match rq with
  | GetHealth => let '(r, g', t) := health g in (HealthResponse r, g', t)
  | PostEmbed body => let '(r, g', t) := embed (parse_body body) g in (EmbedResponded r, g', t)
  end.

Definition blocked (r : response) : bool :=
  match r with
  | HealthResponse Blocks | EmbedResponded Blocks => true
  | _ => false
  end.

(** A handler that never comes back leaves the later requests unserved. *)
Fixpoint serve (rqs : list request) (g : Globals) : list response * Globals * list event :=
  match rqs with
  | [] => ([], g, [])
  | rq :: rqs' =>
      let '(r, g1, t1) := handle rq g in
      if blocked r then ([r], g1, t1)
      else
        let '(rs, g2, t2) := serve rqs' g1 in
        (r :: rs, g2, t1 ++ t2)
  end.

(** The process: the module is imported, and only a module that loaded takes
    requests. *)
Definition run (environ : gmap string string) (isdir : string → bool)
    (rqs : list request) : list response * list event :=
  match module_init environ isdir with
  | (Returns g, t) => let '(rs, _, t') := serve rqs g in (rs, t ++ t')
  | (_, t) => ([], t)
  end.

(** *** Concurrent handlers: threads of [embed] sharing the globals *)

(** Where a thread running [embed] stands. *)
Inductive thread :=
| Entered (req : EmbedRequest)
| AtWith (clean_texts : list str)
| InEncode (clean_texts : list str)
| AtExit (r : result ndarray)
| Finished (r : result EmbedResponse).

Record system := { globals : Globals; threads : list thread }.

Definition encode_call (clean_texts : list str) : EncodeCall :=
  {| sentences := clean_texts;
     batch_size := 32;
     show_progress_bar := false;
     normalize_embeddings := false;
     convert_to_numpy := true |}.

(** Lines 38-43, which touch no shared state. *)
Definition validate (req : EmbedRequest) : thread :=
  if negb (nonempty (texts req))
  then Finished (Returns {| embeddings := [] |})
  else
    let clean_texts := clean (texts req) in
    if negb (length clean_texts =? length (texts req))%nat
    then Finished (Raises (HTTPException 400 "texts must be non-empty strings"))
    else AtWith clean_texts.

(** Line 54 after the [with] block, or the exception going up. *)
Definition leave (r : result ndarray) : result EmbedResponse :=
  match r with
  | Returns vectors => Returns {| embeddings := tolist vectors |}
  | Raises e => Raises e
  | Blocks => Blocks
  end.

(** One step of the server: a request arrives, or one thread moves on. A
    thread at the [with] statement moves only when the lock is free; an
    [encode] that hangs never leaves [InEncode]. *)
Inductive step : system → system → Prop :=
| step_arrive g ts req :
    step {| globals := g; threads := ts |}
         {| globals := g; threads := ts ++ [Entered req] |}
| step_validate g ts i req :
    ts !! i = Some (Entered req) →
    step {| globals := g; threads := ts |}
         {| globals := g; threads := <[i := validate req]> ts |}
| step_acquire g ts i c :
    ts !! i = Some (AtWith c) →
    model_lock g = false →
    step {| globals := g; threads := ts |}
         {| globals := set_lock true g; threads := <[i := InEncode c]> ts |}
| step_encode g ts i c r m' :
    ts !! i = Some (InEncode c) →
    encode (model g) (encode_call c) = (r, m') →
    r ≠ Blocks →
    step {| globals := g; threads := ts |}
         {| globals := set_model m' g; threads := <[i := AtExit r]> ts |}
| step_release g ts i r :
    ts !! i = Some (AtExit r) →
    step {| globals := g; threads := ts |}
         {| globals := set_lock false g; threads := <[i := Finished (leave r)]> ts |}.

(** The states the server can be in, from a fresh lock and no thread. *)
Inductive reachable (g0 : Globals) : system → Prop :=
| reachable_init :
    model_lock g0 = false →
    reachable g0 {| globals := g0; threads := [] |}
| reachable_step s s' :
    reachable g0 s → step s s' → reachable g0 s'.

(** A thread inside the [with model_lock] block. *)
Definition holds_lock (t : thread) : bool :=
  match t with
  | InEncode _ | AtExit _ => true
  | _ => false
  end.

(** Thread [i] of the pool is inside the block. *)
Definition holder (ts : list thread) (i : nat) : Prop :=
  ∃ t, ts !! i = Some t ∧ holds_lock t = true.

(** The lock is locked exactly while some thread is inside the block, and
    no two threads are. *)
Definition lock_invariant (s : system) : Prop :=
  (∀ i j, holder (threads s) i → holder (threads s) j → i = j) ∧
  (model_lock (globals s) = true ↔ ∃ i, holder (threads s) i).

(** The calls of [encode] in a trace, in order. *)
Fixpoint encode_calls (tr : list event) : list EncodeCall :=
  match tr with
  | [] => []
  | EvEncode c :: tr' => c :: encode_calls tr'
  | _ :: tr' => encode_calls tr'
  end.

(** The model loads in a trace, in order. *)
Fixpoint loads (tr : list event) : list (string * string) :=
  match tr with
  | [] => []
  | EvLoad a d :: tr' => (a, d) :: loads tr'
  | _ :: tr' => loads tr'
  end.

(** [d.get(key)] on the payload. *)
Fixpoint dict_get (key : string) (d : list (string * json)) : option json :=
  match d with
  | [] => None
  | (k, v) :: d' => if String.eqb k key then Some v else dict_get key d'
  end.

(** The library's documented shape: [encode] on a list of sentences returns
    a two-dimensional array with one row per sentence. *)
Definition row_per_sentence : Prop :=
  ∀ m call a m', encode m call = (Returns a, m') →
    length (rows a) = length (sentences call).

(** A model whose answer does not depend on the state of its buffers. *)
Definition deterministic_model : Prop :=
  ∀ m1 m2 call, (encode m1 call).1 = (encode m2 call).1.

(** A model library that raises only its own exceptions, never FastAPI's. *)
Definition never_raises_http : Prop :=
  ∀ m call code detail, (encode m call).1 ≠ Raises (HTTPException code detail).

(** A model whose [encode] always comes back. *)
Definition never_hangs : Prop :=
  ∀ m call, (encode m call).1 ≠ Blocks.

(** The calls of the model a request is worth: one for texts none of which
    is blank, none otherwise. *)
Definition expected_calls (rq : request) : list EncodeCall :=
  match rq with
  | GetHealth => []
  | PostEmbed body =>
      let ts := default [] body in
      if nonempty ts && forallb (λ t, truthy (strip t)) ts
      then [encode_call (map strip ts)]
      else []
  end.

(** A string whose last code point, if any, is not whitespace. *)
Definition ends_clean (s : str) : Prop :=
  match last s with None => True | Some c => isspace c = false end.

(** A string with something in it and no whitespace at either end. *)
Definition trimmed (s : str) : Prop :=
  s ≠ [] ∧ starts_clean s ∧ ends_clean s.

(** ** Facts about [strip] *)

Lemma lstrip_starts_clean s : starts_clean (lstrip s).
Proof.
  induction s as [|c s IH]; simpl; [exact I|].
  destruct (isspace c) eqn:Hc; [exact IH|exact Hc].
Qed.

Lemma lstrip_clean s : starts_clean s → lstrip s = s.
Proof. destruct s as [|c s]; simpl; [done|]. by intros ->. Qed.

Lemma rstrip_starts_clean s : starts_clean s → starts_clean (rstrip s).
Proof.
  destruct s as [|c s]; simpl; [done|]. intros Hc.
  destruct (rstrip s); [rewrite Hc|]; exact Hc.
Qed.

Lemma rstrip_cons c s :
  rstrip (c :: s) =
  match rstrip s with [] => if isspace c then [] else [c] | r => c :: r end.
Proof. reflexivity. Qed.

Lemma rstrip_idemp s : rstrip (rstrip s) = rstrip s.
Proof.
  induction s as [|c s IH]; [done|].
  rewrite rstrip_cons.
  destruct (rstrip s) as [|d r] eqn:Hr.
  - destruct (isspace c) eqn:Hc; simpl; [done|]. by rewrite Hc.
  - by rewrite rstrip_cons, IH.
Qed.

(** Stripping is idempotent: a stripped string has nothing left to strip. *)
Lemma strip_idemp s : strip (strip s) = strip s.
Proof.
  unfold strip.
  rewrite (lstrip_clean (rstrip (lstrip s))).
  - apply rstrip_idemp.
  - apply rstrip_starts_clean, lstrip_starts_clean.
Qed.

Lemma lstrip_nil_iff s : lstrip s = [] ↔ forallb isspace s = true.
Proof.
  induction s as [|c s IH]; simpl; [done|].
  destruct (isspace c); simpl; [exact IH|]. split; discriminate.
Qed.

Lemma rstrip_nil_iff s : rstrip s = [] ↔ forallb isspace s = true.
Proof.
  induction s as [|c s IH]; [done|].
  rewrite rstrip_cons. simpl.
  destruct (rstrip s) as [|d r].
  - destruct (isspace c); simpl; [|split; discriminate].
    split; intros _; [by apply IH|done].
  - split; [discriminate|].
    intros [_ H]%andb_prop. by apply IH in H.
Qed.

(** Exactly the strings made of whitespace only (the empty one among them)
    strip to the empty string. *)
Lemma blank_iff_whitespace s : blank s ↔ forallb isspace s = true.
Proof.
  unfold blank, strip. rewrite rstrip_nil_iff. split.
  - intros H. apply lstrip_nil_iff.
    pose proof (lstrip_starts_clean s) as Hc.
    destruct (lstrip s) as [|c r]; [done|].
    simpl in H, Hc. by rewrite Hc in H.
  - intros H. apply lstrip_nil_iff in H. by rewrite H.
Qed.

(** A string that survives stripping was not empty to begin with. *)
Lemma truthy_strip s : truthy (strip s) = true → truthy s = true.
Proof. by destruct s. Qed.

Lemma truthy_not_blank s : truthy (strip s) = true ↔ ¬ blank s.
Proof. unfold blank. by destruct (strip s). Qed.

(** The test of the comprehension, [t and t.strip()], is the test that the
    stripped entry is not empty. *)
Lemma keep_test s : truthy s && truthy (strip s) = truthy (strip s).
Proof.
  destruct (truthy (strip s)) eqn:H; [|by rewrite andb_false_r].
  by rewrite (truthy_strip _ H).
Qed.

Example strip_hello : strip (of_string "  hello  ") = of_string "hello".
Proof. reflexivity. Qed.

Example strip_unicode_space :
  strip [0xA0; 0x3000; 0x68; 0x20; 0x69; 0x2028]%N = [0x68; 0x20; 0x69]%N.
Proof. reflexivity. Qed.

(** ** Facts about the comprehension [clean] *)

Lemma clean_cons t ts :
  clean (t :: ts) = if truthy (strip t) then strip t :: clean ts else clean ts.
Proof. unfold clean. simpl. rewrite keep_test. by destruct (truthy (strip t)). Qed.

Lemma clean_length_le ts : (length (clean ts) ≤ length ts)%nat.
Proof.
  induction ts as [|t ts IH]; [done|].
  rewrite clean_cons. destruct (truthy (strip t)); simpl; lia.
Qed.

(** The comprehension keeps every entry exactly when no entry is blank. *)
Lemma clean_length_eq ts :
  length (clean ts) = length ts ↔ Forall (λ t, ¬ blank t) ts.
Proof.
  induction ts as [|t ts IH]; [by split; [constructor|]|].
  rewrite clean_cons, Forall_cons, <- truthy_not_blank.
  pose proof (clean_length_le ts).
  destruct (truthy (strip t)); simpl.
  - split; [intros [= H']; split; [done|by apply IH]|intros [_ H']; f_equal; by apply IH].
  - split; [lia|intros [? _]; done].
Qed.

Lemma clean_all ts : Forall (λ t, ¬ blank t) ts → clean ts = map strip ts.
Proof.
  induction 1 as [|t ts Ht _ IH]; [done|].
  rewrite clean_cons. apply truthy_not_blank in Ht. rewrite Ht. simpl. by rewrite IH.
Qed.

(** Cleaning stripped entries gives what cleaning the entries gives. *)
Lemma clean_strip ts : clean (map strip ts) = clean ts.
Proof.
  induction ts as [|t ts IH]; [done|].
  simpl. rewrite !clean_cons, strip_idemp, IH. done.
Qed.

(** ** The three ways through [embed] *)

Lemma with_model_lock_free call g :
  model_lock g = false →
  with_model_lock (model_encode call) g =
    match encode (model g) call with
    | (Blocks, m') =>
        (Blocks, set_model m' (set_lock true g), [EvAcquire; EvEncode call])
    | (r, m') =>
        (r, set_lock false (set_model m' (set_lock true g)),
         [EvAcquire; EvEncode call; EvRelease])
    end.
Proof.
  intros Hfree.
  unfold with_model_lock, bind, acquire, finally, model_encode, release.
  rewrite Hfree. simpl.
  destruct (encode (model g) call) as [[a|e|] m']; reflexivity.
Qed.

Lemma with_model_lock_held {A} (body : M A) g :
  model_lock g = true → with_model_lock body g = (Blocks, g, []).
Proof. intros Hheld. unfold with_model_lock, bind, acquire. by rewrite Hheld. Qed.

(** No text: the answer is ready before the lock or the model is looked at. *)
Lemma embed_no_text g :
  embed {| texts := [] |} g = (Returns {| embeddings := [] |}, g, []).
Proof. reflexivity. Qed.

(** A blank entry: the length test of line 42 fails. *)
Lemma embed_blank ts g :
  Exists blank ts →
  embed {| texts := ts |} g =
    (Raises (HTTPException 400 "texts must be non-empty strings"), g, []).
Proof.
  intros Hex. unfold embed. simpl.
  destruct ts as [|t ts]; [by apply Exists_nil in Hex|].
  assert (length (clean (t :: ts)) ≠ length (t :: ts)) as Hne.
  { intros Heq%clean_length_eq. apply Exists_exists in Hex as (x & Hx & Hb).
    by eapply (proj1 (Forall_forall _ _) Heq x). }
  apply Nat.eqb_neq in Hne.
  change (nonempty (t :: ts)) with true. by rewrite Hne.
Qed.

(** Texts, none of them blank: one locked call of the model. *)
Lemma embed_clean ts g :
  ts ≠ [] → Forall (λ t, ¬ blank t) ts →
  embed {| texts := ts |} g =
    bind (with_model_lock (model_encode (encode_call (map strip ts))))
         (λ vectors, ret {| embeddings := tolist vectors |}) g.
Proof.
  intros Hne Hall. unfold embed. simpl.
  destruct ts as [|t ts]; [done|].
  assert (length (clean (t :: ts)) = length (t :: ts)) as Heq by by apply clean_length_eq.
  apply Nat.eqb_eq in Heq.
  change (nonempty (t :: ts)) with true. rewrite Heq.
  by rewrite (clean_all _ Hall).
Qed.

Lemma embed_clean_free ts g :
  ts ≠ [] → Forall (λ t, ¬ blank t) ts → model_lock g = false →
  embed {| texts := ts |} g =
    let call := encode_call (map strip ts) in
    match encode (model g) call with
    | (Blocks, m') =>
        (Blocks, set_model m' (set_lock true g), [EvAcquire; EvEncode call])
    | (r, m') =>
        (leave r, set_lock false (set_model m' (set_lock true g)),
         [EvAcquire; EvEncode call; EvRelease])
    end.
Proof.
  intros Hne Hall Hfree. rewrite (embed_clean _ _ Hne Hall).
  unfold bind. rewrite (with_model_lock_free _ _ Hfree). simpl.
  destruct (encode (model g) (encode_call (map strip ts))) as [[a|e|] m']; simpl;
    by rewrite ?app_nil_r.
Qed.

Lemma embed_clean_held ts g :
  ts ≠ [] → Forall (λ t, ¬ blank t) ts → model_lock g = true →
  embed {| texts := ts |} g = (Blocks, g, []).
Proof.
  intros Hne Hall Hheld. rewrite (embed_clean _ _ Hne Hall).
  unfold bind. by rewrite (with_model_lock_held _ _ Hheld).
Qed.

(** Every list of texts falls under one of the three. *)
Lemma texts_cases (ts : list str) :
  ts = [] ∨ Exists blank ts ∨ (ts ≠ [] ∧ Forall (λ t, ¬ blank t) ts).
Proof.
  destruct ts as [|t ts]; [by left|right].
  assert (Exists blank (t :: ts) ∨ Forall (λ t, ¬ blank t) (t :: ts)) as [H|H];
    [|by left|by right].
  generalize (t :: ts). intros l.
  induction l as [|s l [IH|IH]]; [right; constructor|left; by right|].
  destruct (strip s) eqn:Hs.
  - left. by left.
  - right. constructor; [|done]. unfold blank. by rewrite Hs.
Qed.

(** ** The contract of [embed] and [health] *)

(** C1. For an accepted request (no entry of [texts] is blank once stripped)
    served with the lock free and a model that returns its documented array,
    [embed] returns an embeddings list as long as [texts]; the sentence handed
    to the model at index [i] is the stripped [texts[i]], and the vector at
    index [i] of the answer is row [i] of what the model returned for that
    batch, so the order of the input is kept. *)
Theorem embed_one_vector_per_text req g a m' :
  row_per_sentence →
  Forall (λ t, ¬ blank t) (texts req) →
  model_lock g = false →
  encode (model g) (encode_call (map strip (texts req))) = (Returns a, m') →
  ∃ resp g' tr,
    embed req g = (Returns resp, g', tr) ∧
    length (embeddings resp) = length (texts req) ∧
    ∀ i t, texts req !! i = Some t →
      sentences (encode_call (map strip (texts req))) !! i = Some (strip t) ∧
      ∃ v, rows a !! i = Some v ∧ embeddings resp !! i = Some v.
Proof.
  intros Hrows Hall Hfree Henc. destruct req as [ts]. simpl in *.
  destruct ts as [|t0 ts'] eqn:Hts.
  { eexists _, _, _. rewrite embed_no_text. split; [done|]. split; [done|].
    intros i t Hi. by rewrite lookup_nil in Hi. }
  rewrite <- Hts in *. assert (ts ≠ []) as Hne by by rewrite Hts.
  pose proof (Hrows _ _ _ _ Henc) as Hlen. simpl in Hlen. rewrite length_map in Hlen.
  eexists _, _, _. rewrite (embed_clean_free _ _ Hne Hall Hfree). cbv zeta.
  rewrite Henc. simpl. split; [done|]. split; [done|].
  intros i t Hi. split.
  - by rewrite list_lookup_fmap, Hi.
  - unfold tolist.
    destruct (lookup_lt_is_Some_2 (rows a) i) as [v Hv]; [|by exists v].
    rewrite Hlen. by eapply lookup_lt_Some.
Qed.

(** C2. A request with a blank entry (empty, or whitespace only, so that
    nothing is left of it once stripped) is refused as a whole: [embed]
    raises [HTTPException] 400 with the fixed message, returns no
    embedding, and leaves the lock and the model untouched; [encode] is
    not called. *)
Theorem embed_rejects_blank_entry req g :
  Exists blank (texts req) →
  ∃ r tr,
    embed req g = (r, g, tr) ∧
    r = Raises (HTTPException 400 "texts must be non-empty strings") ∧
    status_of r = Some 400 ∧
    tr = [] ∧ encode_calls tr = [].
Proof.
  intros Hex. destruct req as [ts]. simpl in Hex.
  eexists _, _. split; [by apply embed_blank|]. done.
Qed.

(** C4. A request with no text (an absent [texts] field is the empty list)
    is answered at once with status 200 and no embedding, whatever the
    state of the lock, and with no event: neither the lock nor the model is
    touched. *)
Theorem embed_empty_short_circuit g :
  parse_body None = {| texts := [] |} ∧
  parse_body (Some []) = {| texts := [] |} ∧
  embed {| texts := [] |} g = (Returns {| embeddings := [] |}, g, []) ∧
  status_of (embed {| texts := [] |} g).1.1 = Some 200.
Proof.
  split; [reflexivity|]. split; [reflexivity|].
  rewrite embed_no_text. by split.
Qed.

(** C5. Stripping the entries beforehand changes nothing: [embed] on the
    stripped texts does what it does on the texts (answer, state and
    events), since every entry is stripped before [encode] sees it; so
    ["  hello  "] and ["hello"] get the same answer. *)
Theorem embed_ignores_outer_whitespace ts g :
  embed {| texts := map strip ts |} g = embed {| texts := ts |} g ∧
  embed {| texts := [of_string "  hello  "] |} g =
  embed {| texts := [of_string "hello"] |} g.
Proof.
  assert (∀ l, embed {| texts := map strip l |} g = embed {| texts := l |} g) as Hgen.
  { intros l. unfold embed. simpl.
    rewrite clean_strip, length_map. by destruct l. }
  split; [apply Hgen|].
  rewrite <- (Hgen [of_string "  hello  "]). reflexivity.
Qed.

(** C6. [health] takes no input and cannot fail: in every state of the
    globals, the lock held or not, it returns the fixed payload (status
    "ok", the model name, dimensions 384) with status 200, changes nothing
    and emits no event, so it neither acquires the lock nor calls the
    model. *)
Theorem health_fixed_payload g :
  health g =
    (Returns [("status", JStr "ok"); ("model", JStr "all-MiniLM-L6-v2");
              ("dimensions", JInt 384)], g, []) ∧
  status_of (health g).1.1 = Some 200 ∧
  encode_calls (health g).2 = [].
Proof. unfold health, ret. simpl. done. Qed.

(** C8. An accepted request with at least one text, served with the lock
    free, calls [encode] exactly once: on the stripped batch, with
    [batch_size=32], no progress bar and no normalisation. *)
Theorem embed_calls_encode_once req g :
  texts req ≠ [] →
  Forall (λ t, ¬ blank t) (texts req) →
  model_lock g = false →
  encode_calls (embed req g).2 =
    [ {| sentences := map strip (texts req);
         batch_size := 32;
         show_progress_bar := false;
         normalize_embeddings := false;
         convert_to_numpy := true |} ].
Proof.
  intros Hne Hall Hfree. destruct req as [ts]. simpl in *.
  rewrite (embed_clean_free _ _ Hne Hall Hfree). cbv zeta.
  destruct (encode (model g) (encode_call (map strip ts))) as [[a|e|] m']; reflexivity.
Qed.

(** ** Module initialisation *)





Lemma module_init_trace environ isdir :
  (module_init environ isdir).2 =
    [EvLoad (if isdir (env_model_path environ)
             then env_model_path environ else env_model_name environ) "cpu"].
Proof.
  unfold module_init, load.
  destruct (isdir (env_model_path environ));
    by destruct (SentenceTransformer _ _).
Qed.


(** C10. Whatever the environment and the file system, once the module has
    loaded the configured model, [health] reports the constant model name
    "all-MiniLM-L6-v2" and dimensions 384, though the globals hold the
    configured path and identifier and the load was of the configured
    model. *)
Theorem health_reports_fixed_name environ isdir g tr :
  module_init environ isdir = (Returns g, tr) →
  (∃ payload,
     (health g).1.1 = Returns payload ∧
     dict_get "model" payload = Some (JStr "all-MiniLM-L6-v2") ∧
     dict_get "dimensions" payload = Some (JInt 384)) ∧
  MODEL_PATH g = env_model_path environ ∧
  MODEL_NAME g = env_model_name environ ∧
  loads tr = [(if isdir (env_model_path environ)
               then env_model_path environ else env_model_name environ, "cpu")].
Proof.
  intros Hinit. split; [eexists; by repeat split|].
  pose proof (module_init_trace environ isdir) as Htr.
  rewrite Hinit in Htr. simpl in Htr. subst tr.
  unfold module_init in Hinit.
  destruct (if isdir (env_model_path environ) then _ else _) as [[m|e|] t];
    [|done..].
  by injection Hinit as <- _.
Qed.

(** ** Concurrent requests: the lock discipline *)

Lemma validate_not_holder req : holds_lock (validate req) = false.
Proof.
  unfold validate. destruct (negb (nonempty (texts req))); [done|].
  by destruct (negb _).
Qed.

(** Who holds the lock once thread [i] has moved on. *)
Lemma holder_insert ts i new j :
  (i < length ts)%nat →
  holder (<[i := new]> ts) j ↔
    (j = i ∧ holds_lock new = true) ∨ (j ≠ i ∧ holder ts j).
Proof.
  intros Hi. unfold holder. split.
  - intros (t & Ht & Hh). apply list_lookup_insert_Some in Ht as [(-> & -> & _)|[Hne Ht]].
    + by left.
    + right. split; [done|]. by exists t.
  - intros [[-> Hh]|[Hne (t & Ht & Hh)]].
    + exists new. split; [|done]. by apply list_lookup_insert_eq.
    + exists t. split; [|done]. by rewrite list_lookup_insert_ne.
Qed.

Lemma holder_arrive ts req j : holder (ts ++ [Entered req]) j ↔ holder ts j.
Proof.
  unfold holder. split; intros (t & Ht & Hh); exists t; (split; [|done]).
  - apply lookup_app_Some in Ht as [Ht|[_ Ht]]; [done|].
    apply list_lookup_singleton_Some in Ht as [_ <-]. done.
  - apply lookup_app_l_Some, Ht.
Qed.

Lemma set_model_lock m g : model_lock (set_model m g) = model_lock g.
Proof. reflexivity. Qed.

(** Each step of the server keeps the invariant. *)
Lemma step_lock_invariant s s' : step s s' → lock_invariant s → lock_invariant s'.
Proof.
  intros Hstep [Huniq Hlock].
  destruct Hstep as [g ts req|g ts i req Hi|g ts i c Hi Hfree|g ts i c r m' Hi Henc Hr|g ts i r Hi];
    unfold lock_invariant; simpl in *.
  - split.
    + intros a b Ha%holder_arrive Hb%holder_arrive. by apply Huniq.
    + rewrite Hlock. split; intros [a Ha]; exists a;
        by apply (holder_arrive ts req a).
  - pose proof (lookup_lt_Some _ _ _ Hi) as Hlt.
    assert (¬ holder ts i) as Hnot.
    { intros (t & Ht & Hh). rewrite Hi in Ht. by injection Ht as <-. }
    split.
    + intros a b [[_ Ha]|[_ Ha]]%holder_insert [[_ Hb]|[_ Hb]]%holder_insert;
        rewrite ?validate_not_holder in *; try done. by apply Huniq.
    + rewrite Hlock. split; intros [a Ha]; exists a.
      * apply holder_insert; [done|]. right. split; [|done]. by intros ->.
      * apply holder_insert in Ha as [[_ Ha]|[_ Ha]]; [|done..].
        by rewrite validate_not_holder in Ha.
  - pose proof (lookup_lt_Some _ _ _ Hi) as Hlt.
    assert (∀ a, ¬ holder ts a) as Hnone.
    { intros a Ha. assert (model_lock g = true) as Hheld by (apply Hlock; by exists a).
      by rewrite Hfree in Hheld. }
    split.
    + intros a b [[-> _]|[_ Ha]]%holder_insert [[-> _]|[_ Hb]]%holder_insert;
        try done; by edestruct Hnone.
    + split; [|done]. intros _. exists i. apply holder_insert; [done|]. by left.
  - pose proof (lookup_lt_Some _ _ _ Hi) as Hlt.
    assert (holder ts i) as Hin by by exists (InEncode c).
    split.
    + intros a b [[-> _]|[Hne Ha]]%holder_insert [[-> _]|[Hne' Hb]]%holder_insert;
        try done.
      * by destruct Hne', (Huniq b i).
      * by destruct Hne, (Huniq a i).
      * by apply Huniq.
    + rewrite Hlock. split; intros _; [|by exists i].
      exists i. apply holder_insert; [done|]. by left.
  - pose proof (lookup_lt_Some _ _ _ Hi) as Hlt.
    assert (holder ts i) as Hin by by exists (AtExit r).
    assert (∀ a, ¬ holder (<[i := Finished (leave r)]> ts) a) as Hnone.
    { intros a [[_ Ha]|[Hne Ha]]%holder_insert; [done| |done].
      by destruct Hne, (Huniq a i). }
    split.
    + intros a b Ha. by edestruct Hnone.
    + split; [done|]. intros [a Ha]. by edestruct Hnone.
Qed.

Lemma reachable_lock_invariant g0 s : reachable g0 s → lock_invariant s.
Proof.
  induction 1 as [Hfree|s s' _ IH Hstep].
  - split; simpl.
    + intros i j (t & Ht & _). by rewrite lookup_nil in Ht.
    + rewrite Hfree. split; [done|]. intros [i (t & Ht & _)]. by rewrite lookup_nil in Ht.
  - by eapply step_lock_invariant.
Qed.

(** C3. In every state the server can reach, at most one thread has a call
    of [encode] in progress, indeed at most one thread is inside the
    [with model_lock] block, and the lock is locked exactly while one is;
    a thread whose [encode] has returned or raised can always leave the
    block, which unlocks the lock and hands on the result or the
    exception. *)
Theorem encode_mutually_exclusive g0 s :
  reachable g0 s →
  (∀ i j ci cj,
     threads s !! i = Some (InEncode ci) →
     threads s !! j = Some (InEncode cj) → i = j) ∧
  (∀ i j, holder (threads s) i → holder (threads s) j → i = j) ∧
  (model_lock (globals s) = true ↔ ∃ i, holder (threads s) i) ∧
  (∀ i r, threads s !! i = Some (AtExit r) →
     ∃ s', step s s' ∧
           model_lock (globals s') = false ∧
           threads s' !! i = Some (Finished (leave r)) ∧
           ∀ j, ¬ holder (threads s') j).
Proof.
  intros Hreach. destruct (reachable_lock_invariant _ _ Hreach) as [Huniq Hlock].
  split; [|split; [done|split; [done|]]].
  - intros i j ci cj Hi Hj. apply Huniq; eexists; by split.
  - intros i r Hi. destruct s as [g ts]. simpl in *.
    pose proof (step_release g ts i r Hi) as Hstep.
    eexists. split; [exact Hstep|].
    destruct (step_lock_invariant _ _ Hstep (conj Huniq Hlock)) as [_ Hlock'].
    simpl in *. split; [done|]. split.
    + apply list_lookup_insert_eq. by eapply lookup_lt_Some.
    + intros j Hj. assert (false = true) as Habs by (apply Hlock'; by exists j). done.
Qed.

(** ** A thread alone runs [embed] *)

Lemma validate_no_text :
  validate {| texts := [] |} = Finished (Returns {| embeddings := [] |}).
Proof. reflexivity. Qed.

Lemma validate_blank ts :
  Exists blank ts →
  validate {| texts := ts |} =
    Finished (Raises (HTTPException 400 "texts must be non-empty strings")).
Proof.
  intros Hex. unfold validate. simpl.
  destruct ts as [|t ts]; [by apply Exists_nil in Hex|].
  assert (length (clean (t :: ts)) ≠ length (t :: ts)) as Hne.
  { intros Heq%clean_length_eq. apply Exists_exists in Hex as (x & Hx & Hb).
    by eapply (proj1 (Forall_forall _ _) Heq x). }
  apply Nat.eqb_neq in Hne.
  change (nonempty (t :: ts)) with true. by rewrite Hne.
Qed.

Lemma validate_clean ts :
  ts ≠ [] → Forall (λ t, ¬ blank t) ts →
  validate {| texts := ts |} = AtWith (map strip ts).
Proof.
  intros Hne Hall. unfold validate. simpl.
  destruct ts as [|t ts]; [done|].
  assert (length (clean (t :: ts)) = length (t :: ts)) as Heq by by apply clean_length_eq.
  apply Nat.eqb_eq in Heq.
  change (nonempty (t :: ts)) with true. rewrite Heq.
  by rewrite (clean_all _ Hall).
Qed.

(** The steps of a single thread add up to [embed]: whenever [embed] comes
    back, the thread finishes with the same result in the same globals. *)
Lemma embed_as_thread req g r g' tr :
  embed req g = (r, g', tr) → r ≠ Blocks →
  rtc step {| globals := g; threads := [Entered req] |}
           {| globals := g'; threads := [Finished r] |}.
Proof.
  destruct req as [ts]. intros Hrun Hback.
  destruct (texts_cases ts) as [->|[Hex|[Hne Hall]]].
  - rewrite embed_no_text in Hrun. injection Hrun as <- <- _.
    apply rtc_once.
    apply (step_validate g [Entered {| texts := [] |}] 0 {| texts := [] |}). done.
  - rewrite (embed_blank _ _ Hex) in Hrun. injection Hrun as <- <- _.
    apply rtc_once. rewrite <- (validate_blank _ Hex).
    apply (step_validate g [Entered {| texts := ts |}] 0 {| texts := ts |}). done.
  - destruct (model_lock g) eqn:Hlock.
    { rewrite embed_clean_held in Hrun by done. injection Hrun as <- _ _. done. }
    rewrite embed_clean_free in Hrun by done. cbv zeta in Hrun.
    destruct (encode (model g) (encode_call (map strip ts))) as [r0 m'] eqn:Henc.
    assert (r0 ≠ Blocks ∧ r = leave r0 ∧
            g' = set_lock false (set_model m' (set_lock true g))) as (Hr0 & -> & ->).
    { destruct r0; injection Hrun as <- <- _; done. }
    eapply rtc_l.
    { apply (step_validate g [Entered {| texts := ts |}] 0 {| texts := ts |}). done. }
    rewrite (validate_clean _ Hne Hall). simpl.
    eapply rtc_l.
    { apply (step_acquire g [AtWith (map strip ts)] 0 (map strip ts)); done. }
    simpl. eapply rtc_l.
    { apply (step_encode (set_lock true g) [InEncode (map strip ts)] 0
               (map strip ts) r0 m'); done. }
    simpl. apply rtc_once.
    apply (step_release (set_model m' (set_lock true g)) [AtExit r0] 0 r0). done.
Qed.

(** Served alone with the lock free, [embed] leaves the lock free unless
    the model hangs: also when [encode] raised. *)
Lemma embed_releases_lock req g :
  model_lock g = false →
  (embed req g).1.1 ≠ Blocks →
  model_lock (embed req g).1.2 = false.
Proof.
  intros Hfree Hback. destruct req as [ts].
  destruct (texts_cases ts) as [->|[Hex|[Hne Hall]]].
  - by rewrite embed_no_text.
  - by rewrite (embed_blank _ _ Hex).
  - rewrite embed_clean_free in * by done. cbv zeta in *.
    by destruct (encode (model g) _) as [[a|e|] m'].
Qed.

(** ** Further properties of [embed] *)

Lemma set_lock_round m g :
  model_lock g = false →
  set_lock false (set_model m (set_lock true g)) = set_model m g.
Proof. destruct g as [p n m0 l]. simpl. by intros ->. Qed.

Lemma set_model_same g : set_model (model g) g = g.
Proof. by destruct g. Qed.

(** X1. Served with the lock free, an [embed] that comes back (with an
    answer or with an exception) leaves the globals as it found them but
    for the state of the model: the lock is free again and the configured
    path and identifier are untouched. *)
Theorem embed_restores_globals req g :
  model_lock g = false →
  (embed req g).1.1 ≠ Blocks →
  model_lock (embed req g).1.2 = false ∧
  MODEL_PATH (embed req g).1.2 = MODEL_PATH g ∧
  MODEL_NAME (embed req g).1.2 = MODEL_NAME g ∧
  ∃ m', (embed req g).1.2 = set_model m' g.
Proof.
  intros Hfree Hback.
  assert (∃ m', (embed req g).1.2 = set_model m' g) as [m' Hg'].
  { destruct req as [ts].
    destruct (texts_cases ts) as [->|[Hex|[Hne Hall]]].
    - exists (model g). by rewrite embed_no_text, set_model_same.
    - exists (model g). by rewrite (embed_blank _ _ Hex), set_model_same.
    - rewrite embed_clean_free in * by done. cbv zeta in *.
      destruct (encode (model g) _) as [[a|e|] m']; [| |done];
        exists m'; simpl; by apply set_lock_round. }
  rewrite Hg'. simpl. repeat split; [done|]. by exists m'.
Qed.

(** X2. With a model library that never raises an [HTTPException] of its
    own, [embed] answers 400 exactly for the requests that have an entry
    made of whitespace only (the empty string among them), whatever the
    state of the lock. *)
Theorem embed_400_iff_whitespace_only req g :
  never_raises_http →
  status_of (embed req g).1.1 = Some 400 ↔
  Exists (λ t, forallb isspace t = true) (texts req).
Proof.
  intros Hlib. destruct req as [ts]. simpl.
  assert (Exists (λ t, forallb isspace t = true) ts ↔ Exists blank ts) as ->.
  { split; intros H; (eapply Exists_impl; [exact H|]);
      intros t; apply blank_iff_whitespace. }
  destruct (texts_cases ts) as [->|[Hex|[Hne Hall]]].
  - rewrite embed_no_text. simpl. split; [done|]. by intros ?%Exists_nil.
  - by rewrite (embed_blank _ _ Hex).
  - assert (¬ Exists blank ts) as Hno.
    { intros (t & Ht & Hb)%Exists_exists.
      by eapply (proj1 (Forall_forall _ _) Hall t). }
    split; [|done]. intros Hst. exfalso.
    destruct (model_lock g) eqn:Hlock.
    + by rewrite embed_clean_held in Hst.
    + rewrite embed_clean_free in Hst by done. cbv zeta in Hst.
      pose proof (Hlib (model g) (encode_call (map strip ts))) as Hnot.
      destruct (encode (model g) _) as [[a|[code d|msg]|] m']; simpl in *; try done.
      by eapply Hnot.
Qed.

Lemma rstrip_ends_clean s : ends_clean (rstrip s).
Proof.
  unfold ends_clean. induction s as [|c s IH]; [done|].
  rewrite rstrip_cons. destruct (rstrip s) as [|d r].
  - destruct (isspace c) eqn:Hc; simpl; done.
  - exact IH.
Qed.

(** What [strip] leaves of a string that is not blank is trimmed. *)
Lemma strip_trimmed s : ¬ blank s → trimmed (strip s).
Proof.
  intros Hb. split; [exact Hb|]. split.
  - apply rstrip_starts_clean, lstrip_starts_clean.
  - apply rstrip_ends_clean.
Qed.

(** X4. The model is never given an empty batch or an untrimmed sentence:
    in every call of [encode] that [embed] makes, from any state, there is
    at least one sentence, and every sentence is non-empty and neither
    begins nor ends with whitespace. *)
Theorem embed_sentences_trimmed req g call :
  call ∈ encode_calls (embed req g).2 →
  sentences call ≠ [] ∧ Forall trimmed (sentences call).
Proof.
  destruct req as [ts].
  destruct (texts_cases ts) as [->|[Hex|[Hne Hall]]].
  - rewrite embed_no_text. simpl. by intros ?%elem_of_nil.
  - rewrite (embed_blank _ _ Hex). simpl. by intros ?%elem_of_nil.
  - destruct (model_lock g) eqn:Hlock.
    { rewrite embed_clean_held by done. simpl. by intros ?%elem_of_nil. }
    rewrite embed_clean_free by done. cbv zeta.
    intros Hcall.
    assert (call = encode_call (map strip ts)) as ->.
    { destruct (encode (model g) _) as [[a|e|] m']; simpl in Hcall;
        by apply list_elem_of_singleton in Hcall. }
    simpl. split.
    + by destruct ts.
    + apply Forall_fmap. eapply Forall_impl; [exact Hall|].
      intros t Ht. by apply strip_trimmed.
Qed.

(** X5. An exception of the model goes up unchanged: for texts without a
    blank entry, served with the lock free, when [encode] raises [e] then
    [embed] raises [e], after one call of the model and with the lock
    released; there is no second try and no partial answer. *)
Theorem embed_propagates_model_exception req g e m' :
  texts req ≠ [] →
  Forall (λ t, ¬ blank t) (texts req) →
  model_lock g = false →
  encode (model g) (encode_call (map strip (texts req))) = (Raises e, m') →
  embed req g =
    (Raises e, set_model m' g,
     [EvAcquire; EvEncode (encode_call (map strip (texts req))); EvRelease]).
Proof.
  intros Hne Hall Hfree Henc. destruct req as [ts]. simpl in *.
  rewrite embed_clean_free by done. cbv zeta. rewrite Henc. simpl.
  by rewrite set_lock_round.
Qed.

(** ** Requests one after another *)

(** The answer of [embed] depends on the globals only through the lock and
    through what the model answers. *)
Lemma embed_answer_indep req g1 g2 :
  deterministic_model →
  model_lock g1 = model_lock g2 →
  (embed req g1).1.1 = (embed req g2).1.1.
Proof.
  intros Hdet Hlock. destruct req as [ts].
  destruct (texts_cases ts) as [->|[Hex|[Hne Hall]]].
  - by rewrite !embed_no_text.
  - by rewrite !(embed_blank _ _ Hex).
  - destruct (model_lock g1) eqn:H1; symmetry in Hlock.
    + by rewrite !embed_clean_held.
    + rewrite !embed_clean_free by done. cbv zeta.
      pose proof (Hdet (model g1) (model g2) (encode_call (map strip ts))) as Hsame.
      destruct (encode (model g1) _) as [r1 m1], (encode (model g2) _) as [r2 m2].
      simpl in Hsame. subst r2. by destruct r1.
Qed.

Lemma handle_answer_indep rq g1 g2 :
  deterministic_model →
  model_lock g1 = model_lock g2 →
  (handle rq g1).1.1 = (handle rq g2).1.1.
Proof.
  intros Hdet Hlock. destruct rq as [|body]; simpl; [done|].
  pose proof (embed_answer_indep (parse_body body) g1 g2 Hdet Hlock) as Hsame.
  destruct (embed (parse_body body) g1) as [[r1 g1'] t1],
           (embed (parse_body body) g2) as [[r2 g2'] t2].
  simpl in *. by subst r2.
Qed.

(** A handler served with the lock free on a model that comes back: it
    answers, and it leaves the lock free. *)
Lemma handle_comes_back rq g :
  never_hangs →
  model_lock g = false →
  blocked (handle rq g).1.1 = false ∧ model_lock (handle rq g).1.2 = false.
Proof.
  intros Hlive Hfree. destruct rq as [|body]; simpl; [done|].
  destruct (parse_body body) as [ts].
  destruct (texts_cases ts) as [->|[Hex|[Hne Hall]]].
  - by rewrite embed_no_text.
  - by rewrite (embed_blank _ _ Hex).
  - rewrite embed_clean_free by done. cbv zeta.
    pose proof (Hlive (model g) (encode_call (map strip ts))) as Hback.
    by destruct (encode (model g) _) as [[a|e|] m'].
Qed.

(** X6. Requests do not depend on one another: on a model that always
    comes back and whose answer does not depend on its state, a sequence of
    requests served from a free lock gets, request by request, the answer
    each request would get served first; every request is answered and the
    lock is free at the end. *)
Theorem serve_requests_independent rqs g :
  deterministic_model →
  never_hangs →
  model_lock g = false →
  (serve rqs g).1.1 = map (λ rq, (handle rq g).1.1) rqs ∧
  model_lock (serve rqs g).1.2 = false.
Proof.
  intros Hdet Hlive. revert g.
  induction rqs as [|rq rqs IH]; intros g Hfree; [done|].
  simpl.
  destruct (handle_comes_back rq g Hlive Hfree) as [Hnb Hfree1].
  destruct (handle rq g) as [[r g1] t1] eqn:Hh. simpl in *.
  rewrite Hnb.
  destruct (IH g1 Hfree1) as [IHr IHl].
  destruct (serve rqs g1) as [[rs g2] t2]. simpl in *.
  split; [|done]. f_equal. rewrite IHr.
  apply map_ext. intros rq'. apply handle_answer_indep; [done|].
  by rewrite Hfree, Hfree1.
Qed.

(** ** More on concurrent requests *)

(** X7. The state of the model changes only under the lock: in every state
    the server can reach, a step that changes the model's state is taken by
    a thread inside [encode], with the lock held before and after. *)
Theorem model_changes_only_under_lock g0 s s' :
  reachable g0 s →
  step s s' →
  model (globals s') ≠ model (globals s) →
  model_lock (globals s) = true ∧
  model_lock (globals s') = true ∧
  ∃ i c, threads s !! i = Some (InEncode c) ∧
         ∃ r, threads s' !! i = Some (AtExit r).
Proof.
  intros Hreach Hstep Hchanged.
  destruct (reachable_lock_invariant _ _ Hreach) as [_ Hlock].
  destruct Hstep as [g ts req|g ts i req Hi|g ts i c Hi Hfree|g ts i c r m' Hi Henc Hr|g ts i r Hi];
    simpl in *; try done.
  assert (model_lock g = true) as Hheld.
  { apply Hlock. exists i, (InEncode c). by split. }
  split; [done|]. split; [done|].
  exists i, c. split; [done|]. exists r.
  apply list_lookup_insert_eq. by eapply lookup_lt_Some.
Qed.

(** X8. No deadlock: on a model that always comes back, in every state the
    server can reach, as long as some request is not finished some thread
    can move. *)
Theorem no_deadlock g0 s i t :
  never_hangs →
  reachable g0 s →
  threads s !! i = Some t →
  (∀ r, t ≠ Finished r) →
  ∃ s', step s s' ∧ length (threads s') = length (threads s).
Proof.
  intros Hlive Hreach Hi Hopen.
  destruct (reachable_lock_invariant _ _ Hreach) as [_ Hlock].
  destruct s as [g ts]. simpl in *.
  assert (∀ j c, ts !! j = Some (InEncode c) →
            ∃ s', step {| globals := g; threads := ts |} s' ∧
                  length (threads s') = length ts) as Hencode.
  { intros j c Hj.
    destruct (encode (model g) (encode_call c)) as [r m'] eqn:Henc.
    eexists. split.
    - apply (step_encode g ts j c r m' Hj Henc).
      pose proof (Hlive (model g) (encode_call c)) as Hback. by rewrite Henc in Hback.
    - simpl. apply length_insert. }
  assert (∀ j r, ts !! j = Some (AtExit r) →
            ∃ s', step {| globals := g; threads := ts |} s' ∧
                  length (threads s') = length ts) as Hrelease.
  { intros j r Hj. eexists. split; [apply (step_release g ts j r Hj)|].
    simpl. apply length_insert. }
  destruct t as [req|c|c|r|r].
  - eexists. split; [apply (step_validate g ts i req Hi)|]. simpl. apply length_insert.
  - destruct (model_lock g) eqn:Hl.
    + destruct (proj1 Hlock eq_refl) as (j & tj & Hj & Hh).
      destruct tj as [?|?|c'|r'|?]; try done; eauto.
    + eexists. split; [apply (step_acquire g ts i c Hi Hl)|]. simpl. apply length_insert.
  - eauto.
  - eauto.
  - by destruct (Hopen r).
Qed.

(** ** One call of the model per valid request *)

Lemma encode_calls_app t1 t2 :
  encode_calls (t1 ++ t2) = encode_calls t1 ++ encode_calls t2.
Proof.
  induction t1 as [|e t1 IH]; [done|].
  destruct e; simpl; by rewrite IH.
Qed.

Lemma forallb_not_blank ts :
  forallb (λ t, truthy (strip t)) ts = true ↔ Forall (λ t, ¬ blank t) ts.
Proof.
  induction ts as [|t ts IH]; simpl; [by split; [constructor|]|].
  rewrite andb_true_iff, Forall_cons, IH. by rewrite truthy_not_blank.
Qed.

Lemma handle_calls rq g :
  model_lock g = false →
  encode_calls (handle rq g).2 = expected_calls rq.
Proof.
  intros Hfree. destruct rq as [|body]; simpl; [done|].
  unfold parse_body. set (ts := default [] body).
  assert (encode_calls (embed {| texts := ts |} g).2 =
          if nonempty ts && forallb (λ t, truthy (strip t)) ts
          then [encode_call (map strip ts)] else []) as Hcalls.
  { destruct (texts_cases ts) as [->|[Hex|[Hne Hall]]].
    - by rewrite embed_no_text.
    - rewrite (embed_blank _ _ Hex). simpl.
      destruct (forallb _ ts) eqn:Hall; [|by rewrite andb_false_r].
      apply forallb_not_blank in Hall.
      apply Exists_exists in Hex as (t & Ht & Hb).
      by destruct (proj1 (Forall_forall _ _) Hall t Ht).
    - rewrite (proj2 (forallb_not_blank ts) Hall).
      rewrite embed_clean_free by done. cbv zeta.
      destruct ts; [done|]. simpl.
      by destruct (encode (model g) _) as [[a|e|] m']. }
  by destruct (embed {| texts := ts |} g) as [[r g'] t].
Qed.

(** X10. No coalescing and no skipping: on a model that always comes back,
    a sequence of requests served from a free lock calls [encode] once for
    each request that has texts none of which is blank, on that request's
    stripped texts and in the order of the requests, and not at all for the
    other requests. *)
Theorem serve_one_call_per_valid_request rqs g :
  never_hangs →
  model_lock g = false →
  encode_calls (serve rqs g).2 = concat (map expected_calls rqs).
Proof.
  intros Hlive. revert g.
  induction rqs as [|rq rqs IH]; intros g Hfree; [done|].
  simpl.
  destruct (handle_comes_back rq g Hlive Hfree) as [Hnb Hfree1].
  pose proof (handle_calls rq g Hfree) as Hcalls.
  destruct (handle rq g) as [[r g1] t1]. simpl in *.
  rewrite Hnb. specialize (IH g1 Hfree1).
  destruct (serve rqs g1) as [[rs g2] t2]. simpl in *.
  by rewrite encode_calls_app, Hcalls, IH.
Qed.

End Service.

(** ** The service on the stub model *)

(** The globals after a default start with the stub. *)
Definition stub_globals : @Globals nat :=
  {| MODEL_PATH := "/models/all-MiniLM-L6-v2";
     MODEL_NAME := "sentence-transformers/all-MiniLM-L6-v2";
     model := 0%nat;
     model_lock := false |}.

Definition hello_request : EmbedRequest :=
  {| texts := [of_string "  hello  "; of_string "flux"] |}.

(** [texts = ["hello", ""]]. *)
Definition mixed_request : EmbedRequest :=
  {| texts := [of_string "hello"; of_string ""] |}.

(** An environment that names another model, on a file system without the
    default directory. *)
Definition other_environ : gmap string string :=
  <["EMBEDDINGS_MODEL" := "other/model"]> ∅.

Definition no_directory (path : string) : bool := false.

(** Two requests in flight on a model that raises: the first thread is
    leaving the block with the exception, the second waits for the lock. *)
Definition raised_while_waiting : @system nat :=
  {| globals := set_model 1%nat (set_lock true stub_globals);
     threads := [AtExit (Raises (LibraryError "encode failed"));
                 AtWith [of_string "flux"]] |}.

Ltac not_blank :=
  repeat constructor; intros Hb; vm_compute in Hb; discriminate Hb.

Lemma stub_row_per_sentence : row_per_sentence stub_encode.
Proof.
  intros m call a m' Henc. injection Henc as <- _. simpl. apply length_map.
Qed.

Lemma raised_while_waiting_reachable :
  reachable failing_encode stub_globals raised_while_waiting.
Proof.
  pose (r1 := {| texts := [of_string " hello"] |}).
  pose (r2 := {| texts := [of_string "flux "] |}).
  pose (c1 := [of_string "hello"]).
  pose (c2 := [of_string "flux"]).
  pose (g1 := set_lock true stub_globals).
  apply (reachable_step _ _ {| globals := g1; threads := [InEncode c1; AtWith c2] |}).
  2: { apply (step_encode failing_encode g1 [InEncode c1; AtWith c2] 0 c1
                (Raises (LibraryError "encode failed")) 1%nat); done. }
  apply (reachable_step _ _ {| globals := stub_globals; threads := [AtWith c1; AtWith c2] |}).
  2: { apply (step_acquire failing_encode stub_globals [AtWith c1; AtWith c2] 0 c1); done. }
  apply (reachable_step _ _ {| globals := stub_globals; threads := [AtWith c1; Entered r2] |}).
  2: { apply (step_validate failing_encode stub_globals [AtWith c1; Entered r2] 1 r2). done. }
  apply (reachable_step _ _ {| globals := stub_globals; threads := [Entered r1; Entered r2] |}).
  2: { apply (step_validate failing_encode stub_globals [Entered r1; Entered r2] 0 r1). done. }
  apply (reachable_step _ _ {| globals := stub_globals; threads := [Entered r1] |}).
  2: { apply (step_arrive failing_encode stub_globals [Entered r1] r2). }
  apply (reachable_step _ _ {| globals := stub_globals; threads := [] |}).
  2: { apply (step_arrive failing_encode stub_globals [] r1). }
  by apply reachable_init.
Defined.

(** A run on the stub. *)
Example embed_hi :
  embed stub_encode {| texts := [of_string "  hi "] |} stub_globals =
    (Returns {| embeddings := [[1%float; 1%float]] |},
     set_model 1%nat stub_globals,
     [EvAcquire; EvEncode (encode_call [of_string "hi"]); EvRelease]).
Proof. vm_compute. reflexivity. Qed.

(** A model that raises: the exception goes up as a 500, after the lock
    has been released. *)
Example embed_on_failing_model :
  embed failing_encode {| texts := [of_string "hi"] |} stub_globals =
    (Raises (LibraryError "encode failed"),
     set_model 1%nat stub_globals,
     [EvAcquire; EvEncode (encode_call [of_string "hi"]); EvRelease]) ∧
  status_of (Raises (LibraryError "encode failed") : result EmbedResponse) = Some 500.
Proof. split; vm_compute; reflexivity. Qed.

(** With the lock held by someone else, [health] still answers. *)
Example health_on_held_lock :
  (health (set_lock true stub_globals)).1.1 =
    Returns [("status", JStr "ok"); ("model", JStr "all-MiniLM-L6-v2");
             ("dimensions", JInt 384)].
Proof. vm_compute. reflexivity. Qed.

(** A default start followed by three requests. *)
Example run_three_requests :
  run stub_transformer stub_encode ∅ no_directory
    [GetHealth; PostEmbed None; PostEmbed (Some [of_string "a b"])] =
  ([HealthResponse (Returns [("status", JStr "ok"); ("model", JStr "all-MiniLM-L6-v2");
                             ("dimensions", JInt 384)]);
    EmbedResponded (Returns {| embeddings := [] |});
    EmbedResponded (Returns {| embeddings := [[1%float; 0%float; 1%float]] |})],
   [EvLoad "sentence-transformers/all-MiniLM-L6-v2" "cpu";
    EvAcquire; EvEncode (encode_call [of_string "a b"]); EvRelease]).
Proof. vm_compute. reflexivity. Qed.

(** Two texts on the stub: two vectors, in the order of the texts. *)
Lemma embed_one_vector_per_text_witness :
  row_per_sentence stub_encode ∧
  Forall (λ t, ¬ blank t) (texts hello_request) ∧
  ∃ resp g' tr,
    embed stub_encode hello_request stub_globals = (Returns resp, g', tr) ∧
    length (embeddings resp) = length (texts hello_request) ∧
    ∀ i t, texts hello_request !! i = Some t →
      sentences (encode_call (map strip (texts hello_request))) !! i = Some (strip t) ∧
      ∃ v, rows {| rows := map stub_row (map strip (texts hello_request)) |} !! i = Some v ∧
           embeddings resp !! i = Some v.
Proof.
  split; [exact stub_row_per_sentence|].
  split; [not_blank|].
  apply (embed_one_vector_per_text stub_encode hello_request stub_globals
           {| rows := map stub_row (map strip (texts hello_request)) |} 1%nat).
  - exact stub_row_per_sentence.
  - not_blank.
  - reflexivity.
  - reflexivity.
Defined.

(** [texts = ["hello", ""]] is refused as a whole. *)
Lemma embed_rejects_blank_entry_witness :
  Exists blank (texts mixed_request) ∧
  ∃ r tr,
    embed stub_encode mixed_request stub_globals = (r, stub_globals, tr) ∧
    r = Raises (HTTPException 400 "texts must be non-empty strings") ∧
    status_of r = Some 400 ∧
    tr = [] ∧ encode_calls tr = [].
Proof.
  assert (Exists blank (texts mixed_request)) as Hex.
  { apply Exists_cons_tl, Exists_cons_hd. reflexivity. }
  split; [exact Hex|].
  apply (embed_rejects_blank_entry stub_encode mixed_request stub_globals Hex).
Defined.

(** A model that raises, with a second request waiting: the first thread
    is the only one inside the block and can leave it. *)
Lemma encode_mutually_exclusive_witness :
  reachable failing_encode stub_globals raised_while_waiting ∧
  (∀ i j ci cj,
     threads raised_while_waiting !! i = Some (InEncode ci) →
     threads raised_while_waiting !! j = Some (InEncode cj) → i = j) ∧
  (∀ i j, holder (threads raised_while_waiting) i →
          holder (threads raised_while_waiting) j → i = j) ∧
  (model_lock (globals raised_while_waiting) = true ↔
     ∃ i, holder (threads raised_while_waiting) i) ∧
  (∀ i r, threads raised_while_waiting !! i = Some (AtExit r) →
     ∃ s', step failing_encode raised_while_waiting s' ∧
           model_lock (globals s') = false ∧
           threads s' !! i = Some (Finished (leave r)) ∧
           ∀ j, ¬ holder (threads s') j).
Proof.
  split; [exact raised_while_waiting_reachable|].
  apply (encode_mutually_exclusive failing_encode stub_globals raised_while_waiting
           raised_while_waiting_reachable).
Defined.

(** Two texts on the stub: one call, on the stripped batch. *)
Lemma embed_calls_encode_once_witness :
  texts hello_request ≠ [] ∧
  model_lock stub_globals = false ∧
  encode_calls (embed stub_encode hello_request stub_globals).2 =
    [ {| sentences := [of_string "hello"; of_string "flux"];
         batch_size := 32;
         show_progress_bar := false;
         normalize_embeddings := false;
         convert_to_numpy := true |} ].
Proof.
  split; [discriminate|]. split; [reflexivity|].
  apply (embed_calls_encode_once stub_encode hello_request stub_globals).
  - discriminate.
  - not_blank.
  - reflexivity.
Defined.

(** Another model configured: the load is of "other/model", the payload
    still says "all-MiniLM-L6-v2". *)
Lemma health_reports_fixed_name_witness :
  module_init stub_transformer other_environ no_directory =
    (Returns {| MODEL_PATH := "/models/all-MiniLM-L6-v2";
                MODEL_NAME := "other/model";
                model := 0%nat;
                model_lock := false |},
     [EvLoad "other/model" "cpu"]) ∧
  ∃ g : @Globals nat,
    (∃ payload,
       (health g).1.1 = Returns payload ∧
       dict_get "model" payload = Some (JStr "all-MiniLM-L6-v2") ∧
       dict_get "dimensions" payload = Some (JInt 384)) ∧
    MODEL_PATH g = env_model_path other_environ ∧
    MODEL_NAME g = env_model_name other_environ ∧
    MODEL_NAME g = "other/model" ∧
    loads [EvLoad "other/model" "cpu"] = [("other/model", "cpu")].
Proof.
  assert (module_init stub_transformer other_environ no_directory =
            (Returns {| MODEL_PATH := "/models/all-MiniLM-L6-v2";
                        MODEL_NAME := "other/model";
                        model := 0%nat;
                        model_lock := false |},
             [EvLoad "other/model" "cpu"])) as Hinit by (vm_compute; reflexivity).
  split; [exact Hinit|].
  destruct (health_reports_fixed_name stub_transformer other_environ no_directory
              _ _ Hinit) as (Hpay & Hpath & Hname & Hloads).
  eexists. split; [exact Hpay|]. split; [exact Hpath|]. split; [exact Hname|].
  split; reflexivity.
Defined.

(** ** The further properties on the stub model *)

(** The state before the model raised: the first thread is inside
    [encode], the second waits for the lock. *)
Definition encoding_while_waiting : @system nat :=
  {| globals := set_lock true stub_globals;
     threads := [InEncode [of_string "hello"]; AtWith [of_string "flux"]] |}.

Definition five_requests : list request :=
  [PostEmbed (Some [of_string " a b "]); GetHealth;
   PostEmbed (Some [of_string "hello"; of_string "  "]);
   PostEmbed None;
   PostEmbed (Some [of_string "flux"])].

Lemma stub_never_raises_http : never_raises_http stub_encode.
Proof. intros m call code detail. simpl. discriminate. Qed.

Lemma stub_never_hangs : never_hangs stub_encode.
Proof. intros m call. simpl. discriminate. Qed.

Lemma stub_deterministic : deterministic_model stub_encode.
Proof. intros m1 m2 call. reflexivity. Qed.

Lemma failing_never_hangs : never_hangs failing_encode.
Proof. intros m call. simpl. discriminate. Qed.

Lemma encoding_while_waiting_reachable :
  reachable failing_encode stub_globals encoding_while_waiting.
Proof.
  pose (r1 := {| texts := [of_string " hello"] |}).
  pose (r2 := {| texts := [of_string "flux "] |}).
  pose (c1 := [of_string "hello"]).
  pose (c2 := [of_string "flux"]).
  apply (reachable_step _ _ {| globals := stub_globals; threads := [AtWith c1; AtWith c2] |}).
  2: { apply (step_acquire failing_encode stub_globals [AtWith c1; AtWith c2] 0 c1); done. }
  apply (reachable_step _ _ {| globals := stub_globals; threads := [AtWith c1; Entered r2] |}).
  2: { apply (step_validate failing_encode stub_globals [AtWith c1; Entered r2] 1 r2). done. }
  apply (reachable_step _ _ {| globals := stub_globals; threads := [Entered r1; Entered r2] |}).
  2: { apply (step_validate failing_encode stub_globals [Entered r1; Entered r2] 0 r1). done. }
  apply (reachable_step _ _ {| globals := stub_globals; threads := [Entered r1] |}).
  2: { apply (step_arrive failing_encode stub_globals [Entered r1] r2). }
  apply (reachable_step _ _ {| globals := stub_globals; threads := [] |}).
  2: { apply (step_arrive failing_encode stub_globals [] r1). }
  by apply reachable_init.
Defined.

Lemma encoding_raises_step :
  step failing_encode encoding_while_waiting raised_while_waiting.
Proof.
  apply (step_encode failing_encode (set_lock true stub_globals)
           [InEncode [of_string "hello"]; AtWith [of_string "flux"]] 0
           [of_string "hello"] (Raises (LibraryError "encode failed")) 1%nat); done.
Defined.

(** After two texts on the stub the globals differ by the model's state. *)
Lemma embed_restores_globals_witness :
  model_lock (embed stub_encode hello_request stub_globals).1.2 = false ∧
  MODEL_PATH (embed stub_encode hello_request stub_globals).1.2 = MODEL_PATH stub_globals ∧
  MODEL_NAME (embed stub_encode hello_request stub_globals).1.2 = MODEL_NAME stub_globals ∧
  ∃ m', (embed stub_encode hello_request stub_globals).1.2 = set_model m' stub_globals.
Proof.
  apply (embed_restores_globals stub_encode hello_request stub_globals).
  - reflexivity.
  - vm_compute. discriminate.
Defined.

(** [texts = ["hello", ""]] has a whitespace-only entry and gets a 400. *)
Lemma embed_400_iff_whitespace_only_witness :
  never_raises_http stub_encode ∧
  (status_of (embed stub_encode mixed_request stub_globals).1.1 = Some 400 ↔
   Exists (λ t, forallb isspace t = true) (texts mixed_request)).
Proof.
  split; [exact stub_never_raises_http|].
  apply (embed_400_iff_whitespace_only stub_encode mixed_request stub_globals
           stub_never_raises_http).
Defined.

(** The call made for ["  hello  ", "flux"]. *)
Lemma embed_sentences_trimmed_witness :
  encode_call [of_string "hello"; of_string "flux"]
    ∈ encode_calls (embed stub_encode hello_request stub_globals).2 ∧
  sentences (encode_call [of_string "hello"; of_string "flux"]) ≠ [] ∧
  Forall trimmed (sentences (encode_call [of_string "hello"; of_string "flux"])).
Proof.
  assert (encode_call [of_string "hello"; of_string "flux"]
            ∈ encode_calls (embed stub_encode hello_request stub_globals).2) as Hin.
  { change (encode_calls (embed stub_encode hello_request stub_globals).2)
      with [encode_call [of_string "hello"; of_string "flux"]].
    apply list_elem_of_here. }
  split; [exact Hin|].
  apply (embed_sentences_trimmed stub_encode hello_request stub_globals _ Hin).
Defined.

(** The failing model on two texts. *)
Lemma embed_propagates_model_exception_witness :
  embed failing_encode hello_request stub_globals =
    (Raises (LibraryError "encode failed"), set_model 1%nat stub_globals,
     [EvAcquire; EvEncode (encode_call (map strip (texts hello_request))); EvRelease]).
Proof.
  apply (embed_propagates_model_exception failing_encode hello_request stub_globals).
  - discriminate.
  - not_blank.
  - reflexivity.
  - reflexivity.
Defined.

(** Five requests on the stub. *)
Lemma serve_requests_independent_witness :
  (serve stub_encode five_requests stub_globals).1.1 =
    map (λ rq, (handle stub_encode rq stub_globals).1.1) five_requests ∧
  model_lock (serve stub_encode five_requests stub_globals).1.2 = false.
Proof.
  apply (serve_requests_independent stub_encode five_requests stub_globals
           stub_deterministic stub_never_hangs).
  reflexivity.
Defined.

(** The step in which the failing model changes its state. *)
Lemma model_changes_only_under_lock_witness :
  model_lock (globals encoding_while_waiting) = true ∧
  model_lock (globals raised_while_waiting) = true ∧
  ∃ i c, threads encoding_while_waiting !! i = Some (InEncode c) ∧
         ∃ r, threads raised_while_waiting !! i = Some (AtExit r).
Proof.
  apply (model_changes_only_under_lock failing_encode stub_globals
           encoding_while_waiting raised_while_waiting
           encoding_while_waiting_reachable encoding_raises_step).
  simpl. discriminate.
Defined.

(** The waiting thread is not finished: some thread can move. *)
Lemma no_deadlock_witness :
  ∃ s', step failing_encode raised_while_waiting s' ∧
        length (threads s') = length (threads raised_while_waiting).
Proof.
  apply (no_deadlock failing_encode stub_globals raised_while_waiting 1
           (AtWith [of_string "flux"]) failing_never_hangs
           raised_while_waiting_reachable).
  - reflexivity.
  - discriminate.
Defined.

(** Five requests, two of them with texts none of which is blank. *)
Lemma serve_one_call_per_valid_request_witness :
  encode_calls (serve stub_encode five_requests stub_globals).2 =
    [encode_call [of_string "a b"]; encode_call [of_string "flux"]].
Proof.
  apply (serve_one_call_per_valid_request stub_encode five_requests stub_globals
           stub_never_hangs).
  reflexivity.
Defined.
